(** * Service discovery facade (service-discovery/service_discovery.go)

    A shallow embedding of package [servicediscovery]: the [Service]
    interface, the [ServiceDiscovery] registry, [NewServiceDiscovery],
    [Register], [GetServices] and [GetServiceById], with the zeroconf
    engine, [log.Fatalf] and the iteration order of Go maps made explicit. *)

From stdpp Require Import gmap strings list fin_maps.
From Stdlib Require Import ZArith Ascii.

#[local] Set Warnings "-clear-no-such-hyp".

Local Open Scope string_scope.
Local Open Scope list_scope.

(** ** Iteration order of a Go map

    [for k, v := range m] visits every entry once, in an order the runtime
    chooses.  The choice is a natural number [seed]; [permute] decodes it in
    the factorial number system, so every order is reached by some seed
    ([permute_complete]). *)

Definition insert_at {A} (n : nat) (x : A) (l : list A) : list A :=
  take n l ++ x :: drop n l.

Fixpoint permute {A} (seed : nat) (l : list A) : list A :=
  match l with
  | [] => []
  | x :: xs =>
      let width := S (length xs) in
      insert_at (seed mod width) x (permute (seed / width) xs)
  end.

(** The entries of a Go map, as one [range] loop meets them. *)
Definition range_map {V} (seed : nat) (m : gmap string V) : list (string * V) :=
  permute seed (map_to_list m).

(** ** Dynamic values behind [interface{}]

    [Service.Config] returns [interface{}].  The constructors are the
    dynamic types a configuration may have; only [CfgStringMap] has dynamic
    type [map[string]string]. *)

Inductive Scalar : Type :=
| ScString (s : string)
| ScInt (n : Z)
| ScBool (b : bool).

Inductive ConfigValue : Type :=
| CfgNil                                        (* nil interface *)
| CfgStringMap (m : gmap string string)         (* map[string]string *)
| CfgString (s : string)                        (* string *)
| CfgInt (n : Z)                                (* int *)
| CfgBool (b : bool)                            (* bool *)
| CfgStringSlice (l : list string)              (* []string *)
| CfgIntKeyMap (m : gmap Z string)              (* map[int]string *)
| CfgIntValMap (m : gmap string Z)              (* map[string]int *)
| CfgAnyMap (m : gmap string Scalar).           (* map[string]interface{} *)

(** The type assertion [v.(map[string]string)] in its two-result form:
    [Some m] is [(m, true)], [None] is [(nil, false)]. *)
Definition assert_string_map (v : ConfigValue) : option (gmap string string) :=
  match v with
  | CfgStringMap m => Some m
  | _ => None
  end.

(** ** Configuration encoder (Register, lines 53-59)

    [txtRecords] starts as the nil slice and is only appended to inside the
    [if]; a nil slice and an empty one are both the empty list here.
    [encode_config] is these lines as a function of the order the [range]
    loop takes; [config_txt] below runs them inside the process. *)

Definition txt_pair (kv : string * string) : string :=
  (kv.1 ++ "=" ++ kv.2)%string.

Definition encode_loop (entries : list (string * string)) (txtRecords : list string)
  : list string :=
  foldl (fun acc kv => acc ++ [txt_pair kv]) txtRecords entries.

Definition encode_config (seed : nat) (cfg : ConfigValue) : list string :=
  match assert_string_map cfg with
  | Some configMap => encode_loop (range_map seed configMap) []
  | None => []
  end.

(** ** The process and its environment

    The facade talks to the zeroconf engine and may end the process through
    [log.Fatalf].  A [World] records what has happened so far; an [Engine]
    holds the answers of the environment: whether the resolver can be built,
    whether a registration is accepted (given the history), and the order
    chosen for the k-th [range] loop over a map. *)

Definition Handle := nat.

Record RegisterCall := {
  rc_instance : string;
  rc_service : string;
  rc_domain : string;
  rc_port : Z;
  rc_text : list string;
}.

Inductive Event : Type :=
| EvNewResolver (h : Handle)
| EvNewResolverFailed (err : string)
| EvRegister (c : RegisterCall) (h : Handle)
| EvRegisterFailed (c : RegisterCall) (err : string)
| EvShutdown (h : Handle)
| EvFatal (msg : string).

Record Engine := {
  resolver_error : option string;
  register_error : list Event -> RegisterCall -> option string;
  range_seed : nat -> nat;
}.

Record World := {
  trace : list Event;      (* oldest event first *)
  live : gset Handle;      (* servers announced and not yet shut down *)
  ranges : nat;            (* map range loops run so far *)
}.

Definition initial_world : World :=
  {| trace := []; live := ∅; ranges := 0 |}.

(** A Go call either returns to its caller or, after [os.Exit], never does. *)
Inductive Outcome (A : Type) : Type :=
| Returned (a : A) (w : World)
| Exited (w : World).
Arguments Returned {A} a w.
Arguments Exited {A} w.

Definition Proc (A : Type) : Type := World -> Outcome A.

Definition ret {A} (a : A) : Proc A := fun w => Returned a w.

Definition bind {A B} (p : Proc A) (k : A -> Proc B) : Proc B :=
  fun w => match p w with
           | Returned a w' => k a w'
           | Exited w' => Exited w'
           end.

Notation "x <- p ;; k" := (bind p (fun x => k))
  (at level 100, p at next level, right associativity).

Definition emit (e : Event) : Proc unit :=
  fun w => Returned tt {| trace := trace w ++ [e]; live := live w; ranges := ranges w |}.

(** [log.Fatalf]: the message is logged and the process exits with status 1;
    deferred calls do not run and nothing after the call is executed. *)
Definition log_Fatalf {A} (msg : string) : Proc A :=
  fun w => Exited {| trace := trace w ++ [EvFatal msg]; live := live w; ranges := ranges w |}.

(** A function body hands back the calls it deferred, in the order the
    [defer] statements ran; they run last-in first-out when the body returns. *)
Fixpoint run_deferred (ds : list (Proc unit)) : Proc unit :=
  match ds with
  | [] => ret tt
  | d :: ds' => _ <- run_deferred ds' ;; d
  end.

Definition with_defers {A} (body : Proc (A * list (Proc unit))) : Proc A :=
  r <- body ;; _ <- run_deferred r.2 ;; ret r.1.

Section Runtime.
Context (eng : Engine).

(** [for k, v := range m]: the entries in the order picked for this loop. *)
Definition go_range {V} (m : gmap string V) : Proc (list (string * V)) :=
  fun w => Returned (range_map (range_seed eng (ranges w)) m)
             {| trace := trace w; live := live w; ranges := S (ranges w) |}.

End Runtime.

(** ** The zeroconf engine (github.com/grandcat/zeroconf)

    Of [zeroconf.ServiceEntry] only the fields the facade sets are kept; the
    others stay at their zero value in every entry it builds.  A resolver
    and a server are known by a handle. *)

Module zeroconf.

Record ServiceEntry := {
  HostName : string;
  Port : Z;
  Text : list string;
}.

Section Engine.
Context (eng : Engine).

(** [zeroconf.NewResolver(nil)]: a resolver, or an error. *)
Definition NewResolver : Proc (Handle + string) :=
  fun w =>
    match resolver_error eng with
    | Some err =>
        Returned (inr err)
          {| trace := trace w ++ [EvNewResolverFailed err]; live := live w; ranges := ranges w |}
    | None =>
        let h := length (trace w) in
        Returned (inl h)
          {| trace := trace w ++ [EvNewResolver h]; live := live w; ranges := ranges w |}
    end.

(** [zeroconf.Register(instance, service, domain, port, text, nil)]:
    a running server announcing the service, or an error. *)
Definition Register (instance service domain : string) (port : Z)
    (text : list string) : Proc (Handle + string) :=
  fun w =>
    let c := {| rc_instance := instance; rc_service := service; rc_domain := domain;
                rc_port := port; rc_text := text |} in
    match register_error eng (trace w) c with
    | Some err =>
        Returned (inr err)
          {| trace := trace w ++ [EvRegisterFailed c err]; live := live w; ranges := ranges w |}
    | None =>
        let h := length (trace w) in
        Returned (inl h)
          {| trace := trace w ++ [EvRegister c h]; live := {[h]} ∪ live w; ranges := ranges w |}
    end.

End Engine.

(** [Shutdown] on a server: the announcement is withdrawn. *)
Definition Shutdown (server : Handle) : Proc unit :=
  fun w => Returned tt
    {| trace := trace w ++ [EvShutdown server]; live := live w ∖ {[server]}; ranges := ranges w |}.

End zeroconf.

(** ** The [Service] interface (lines 20-33)

    A service is any type with these methods; they are read as functions of
    the service value.  [Start] is left out: no function of the package
    calls it. *)

Class Service (T : Type) := {
  Hostname : T -> string;
  Port : T -> Z;
  ServiceType : T -> string;
  ID : T -> string;
  Config : T -> ConfigValue;
}.

(** A service given by the values its methods return. *)
Record StaticService := {
  ss_hostname : string;
  ss_port : Z;
  ss_type : string;
  ss_id : string;
  ss_config : ConfigValue;
}.

#[export] Instance StaticService_Service : Service StaticService := {
  Hostname := ss_hostname;
  Port := ss_port;
  ServiceType := ss_type;
  ID := ss_id;
  Config := ss_config;
}.

(** ** [ServiceDiscovery] (lines 12-16)

    [services] is the map made by [NewServiceDiscovery]; its values are
    pointers to entries nothing in the package writes to after they are
    stored, so an entry stands for the pointer and [None] for nil. *)

Record ServiceDiscovery := {
  resolver : Handle;
  services : gmap string zeroconf.ServiceEntry;
  serviceType : string;
}.

Section Facade.
Context (eng : Engine).

(** [NewServiceDiscovery] (lines 37-48). *)
Definition NewServiceDiscovery (serviceType : string) : Proc ServiceDiscovery :=
  r <- zeroconf.NewResolver eng ;;
  resolver <- match r with
              | inr err => log_Fatalf ("Failed to initialize resolver: " ++ err)%string
              | inl resolver => ret resolver
              end ;;
  ret {| resolver := resolver; services := ∅; serviceType := serviceType |}.

(** Lines 53-59 of [Register]: the TXT records of a configuration. *)
Definition config_txt (cfg : ConfigValue) : Proc (list string) :=
  match assert_string_map cfg with
  | Some configMap =>
      entries <- go_range eng configMap ;;
      ret (encode_loop entries [])
  | None => ret []
  end.

(** [Register] (lines 52-74).  The receiver is a pointer: the updated
    [ServiceDiscovery] is what the caller's pointer refers to afterwards. *)
Definition Register_body {T} `{Service T} (sd : ServiceDiscovery) (s : T)
  : Proc (ServiceDiscovery * list (Proc unit)) :=
  txtRecords <- config_txt (Config s) ;;
  r <- zeroconf.Register eng (Hostname s) (ServiceType s) "local." (Port s) txtRecords ;;
  server <- match r with
            | inr err => log_Fatalf ("Failed to register service: " ++ err)%string
            | inl server => ret server
            end ;;
  let sd' := {| resolver := resolver sd;
                services := <[ID s := {| zeroconf.HostName := Hostname s;
                                         zeroconf.Port := Port s;
                                         zeroconf.Text := txtRecords |}]> (services sd);
                serviceType := serviceType sd |} in
  ret (sd', [zeroconf.Shutdown server]).

Definition Register {T} `{Service T} (sd : ServiceDiscovery) (s : T) : Proc ServiceDiscovery :=
  with_defers (Register_body sd s).

(** [GetServices] (lines 77-83). *)
Definition GetServices (sd : ServiceDiscovery) : Proc (list string) :=
  entries <- go_range eng (services sd) ;;
  ret (foldl (fun ids e => ids ++ [e.1]) [] entries).

(** [GetServiceById] (lines 87-89): the stored pointer, or nil. *)
Definition GetServiceById (sd : ServiceDiscovery) (id : string) : Proc (option zeroconf.ServiceEntry) :=
  ret (services sd !! id).

(** *** Sequences of calls on one [ServiceDiscovery] *)

Inductive Op : Type :=
| OpRegister {T : Type} `{Service T} (s : T)
| OpGetServices
| OpGetServiceById (id : string).

Inductive Reply : Type :=
| RUnit
| RIds (ids : list string)
| REntry (e : option zeroconf.ServiceEntry).

Definition exec (sd : ServiceDiscovery) (op : Op) : Proc (Reply * ServiceDiscovery) :=
  match op with
  | OpRegister s => sd' <- Register sd s ;; ret (RUnit, sd')
  | OpGetServices => ids <- GetServices sd ;; ret (RIds ids, sd)
  | OpGetServiceById id => e <- GetServiceById sd id ;; ret (REntry e, sd)
  end.

Fixpoint run (sd : ServiceDiscovery) (ops : list Op) : Proc (list Reply * ServiceDiscovery) :=
  match ops with
  | [] => ret ([], sd)
  | op :: ops' =>
      r <- exec sd op ;;
      rs <- run r.2 ops' ;;
      ret (r.1 :: rs.1, rs.2)
  end.

End Facade.

(** The IDs a sequence of calls registers, in call order. *)
Definition registered_id (op : Op) : option string :=
  match op with
  | OpRegister s => Some (ID s)
  | _ => None
  end.

Definition registered_ids (ops : list Op) : list string :=
  omap registered_id ops.

(** ** Reading TXT records back

    The package has no decoder.  [split_first_eq] is the decoder the
    specification describes, "splitting on the first [=]": the part before
    the first ["="] and the part after it. *)

Definition eq_sign : Ascii.ascii := "="%char.

Fixpoint contains_eq (s : string) : bool :=
  match s with
  | EmptyString => false
  | String c s' => if Ascii.eqb c eq_sign then true else contains_eq s'
  end.

Fixpoint split_first_eq (s : string) : option (string * string) :=
  match s with
  | EmptyString => None
  | String c s' =>
      if Ascii.eqb c eq_sign then Some (EmptyString, s')
      else match split_first_eq s' with
           | Some (k, v) => Some (String c k, v)
           | None => None
           end
  end.

Definition decode_txt (txt : list string) : option (gmap string string) :=
  list_to_map <$> mapM split_first_eq txt.

(** ** Vocabulary of the statements *)

(** The world after one more [range] loop. *)
Definition after_range (w : World) : World :=
  {| trace := trace w; live := live w; ranges := S (ranges w) |}.

(** The world in which [Register] calls the engine: a range loop has run
    exactly when the configuration is a [map[string]string]. *)
Definition after_config (cfg : ConfigValue) (w : World) : World :=
  match assert_string_map cfg with
  | Some _ => after_range w
  | None => w
  end.

(** The arguments [Register] passes to [zeroconf.Register]. *)
Definition register_call {T} `{Service T} (s : T) (txtRecords : list string) : RegisterCall :=
  {| rc_instance := Hostname s; rc_service := ServiceType s; rc_domain := "local.";
     rc_port := Port s; rc_text := txtRecords |}.

(** The entry [Register] stores. *)
Definition entry_of {T} `{Service T} (s : T) (txtRecords : list string) : zeroconf.ServiceEntry :=
  {| zeroconf.HostName := Hostname s; zeroconf.Port := Port s; zeroconf.Text := txtRecords |}.

(** Calls of [zeroconf.Register] recorded in a trace, accepted or not. *)
Definition is_register_attempt (e : Event) : bool :=
  match e with
  | EvRegister _ _ | EvRegisterFailed _ _ => true
  | _ => false
  end.

Definition register_attempts (tr : list Event) : nat :=
  length (filter (fun e => is_register_attempt e = true) tr).

Definition is_exited {A} (o : Outcome A) : bool :=
  match o with
  | Exited _ => true
  | Returned _ _ => false
  end.

(** The same [ServiceDiscovery] built for another service type. *)
Definition with_serviceType (st : string) (sd : ServiceDiscovery) : ServiceDiscovery :=
  {| resolver := resolver sd; services := services sd; serviceType := st |}.

(** Two outcomes that agree on everything but the configured service type
    of the [ServiceDiscovery] they hand back. *)
Definition same_up_to_serviceType {R}
    (o1 o2 : Outcome (R * ServiceDiscovery)) : Prop :=
  match o1, o2 with
  | Returned r1 w1, Returned r2 w2 =>
      r1.1 = r2.1 ∧ resolver r1.2 = resolver r2.2 ∧ services r1.2 = services r2.2 ∧ w1 = w2
  | Exited w1, Exited w2 => w1 = w2
  | _, _ => False
  end.

(** A whole session: build the [ServiceDiscovery], then make the calls. *)
Definition session (eng : Engine) (st : string) (ops : list Op)
  : Proc (list Reply * ServiceDiscovery) :=
  sd <- NewServiceDiscovery eng st ;; run eng sd ops.

(** ** Examples used to exercise the statements *)

Definition quiet_engine : Engine :=
  {| resolver_error := None; register_error := fun _ _ => None; range_seed := fun k => k |}.

Definition no_resolver_engine : Engine :=
  {| resolver_error := Some "no interface"; register_error := fun _ _ => None;
     range_seed := fun k => k |}.

Definition refusing_engine : Engine :=
  {| resolver_error := None; register_error := fun _ _ => Some "no interface";
     range_seed := fun k => k |}.

Definition svc1 : StaticService :=
  {| ss_hostname := "host1"; ss_port := 8080; ss_type := "_myService._tcp"; ss_id := "svc1";
     ss_config := CfgStringMap (<["v" := "1"]> (<["env" := "prod"]> ∅)) |}.

Definition svc1' : StaticService :=
  {| ss_hostname := "host9"; ss_port := 9090; ss_type := "_other._tcp"; ss_id := "svc1";
     ss_config := CfgInt 7 |}.

Definition svc2 : StaticService :=
  {| ss_hostname := "host2"; ss_port := 8081; ss_type := "_myService._tcp"; ss_id := "svc2";
     ss_config := CfgNil |}.

Definition fresh_sd : ServiceDiscovery :=
  {| resolver := 0; services := ∅; serviceType := "_myService._tcp" |}.

Definition started_world : World :=
  {| trace := [EvNewResolver 0]; live := ∅; ranges := 0 |}.

(** [fresh_sd] and [started_world] after [Register(svc1)]. *)
Definition svc1_call : RegisterCall :=
  {| rc_instance := "host1"; rc_service := "_myService._tcp"; rc_domain := "local.";
     rc_port := 8080; rc_text := ["env=prod"; "v=1"] |}.

Definition svc1_entry : zeroconf.ServiceEntry :=
  {| zeroconf.HostName := "host1"; zeroconf.Port := 8080;
     zeroconf.Text := ["env=prod"; "v=1"] |}.

Definition sd_svc1 : ServiceDiscovery :=
  {| resolver := 0; services := <["svc1" := svc1_entry]> ∅;
     serviceType := "_myService._tcp" |}.

Definition world_svc1 : World :=
  {| trace := [EvNewResolver 0; EvRegister svc1_call 1; EvShutdown 1];
     live := ∅; ranges := 1 |}.

(** ... and after [Register(svc1')] on top of that. *)
Definition svc1'_call : RegisterCall :=
  {| rc_instance := "host9"; rc_service := "_other._tcp"; rc_domain := "local.";
     rc_port := 9090; rc_text := [] |}.

Definition svc1'_entry : zeroconf.ServiceEntry :=
  {| zeroconf.HostName := "host9"; zeroconf.Port := 9090; zeroconf.Text := [] |}.

Definition sd_svc1' : ServiceDiscovery :=
  {| resolver := 0; services := <["svc1" := svc1'_entry]> ∅;
     serviceType := "_myService._tcp" |}.

Definition world_svc1' : World :=
  {| trace := [EvNewResolver 0; EvRegister svc1_call 1; EvShutdown 1;
               EvRegister svc1'_call 3; EvShutdown 3];
     live := ∅; ranges := 1 |}.

(** A history with two registrations and a lookup in between, and the
    state it leads to from [fresh_sd] and [started_world]. *)
Definition two_services : list Op :=
  [OpRegister svc1; OpGetServiceById "svc1"; OpRegister svc2].

Definition svc2_call : RegisterCall :=
  {| rc_instance := "host2"; rc_service := "_myService._tcp"; rc_domain := "local.";
     rc_port := 8081; rc_text := [] |}.

Definition svc2_entry : zeroconf.ServiceEntry :=
  {| zeroconf.HostName := "host2"; zeroconf.Port := 8081; zeroconf.Text := [] |}.

Definition sd_two : ServiceDiscovery :=
  {| resolver := 0;
     services := <["svc2" := svc2_entry]> (<["svc1" := svc1_entry]> ∅);
     serviceType := "_myService._tcp" |}.

Definition world_two : World :=
  {| trace := [EvNewResolver 0; EvRegister svc1_call 1; EvShutdown 1;
               EvRegister svc2_call 3; EvShutdown 3];
     live := ∅; ranges := 1 |}.

(** ** A [ServiceDiscovery] not built by [NewServiceDiscovery]

    The type is exported, so a caller can hold [ServiceDiscovery{}]: its
    [resolver] is nil, its [services] is the nil map and its [serviceType]
    is empty.  Go reads a nil map as an empty one, in an index expression,
    in [len] and in [range]; an assignment to an entry of a nil map panics.
    The three methods are given again over such values, with the panic as a
    third outcome; [of_made] embeds the values [NewServiceDiscovery]
    builds. *)

Inductive GoMap (V : Type) : Type :=
| NilMap
| MadeMap (m : gmap string V).
Arguments NilMap {V}.
Arguments MadeMap {V} m.

(** What reading sees in a map. *)
Definition map_entries {V} (gm : GoMap V) : gmap string V :=
  match gm with
  | NilMap => ∅
  | MadeMap m => m
  end.

(** [gm[k] = v]: the updated map, or [None] for the panic on a nil map. *)
Definition map_assign {V} (gm : GoMap V) (k : string) (v : V) : option (GoMap V) :=
  match gm with
  | NilMap => None
  | MadeMap m => Some (MadeMap (<[k := v]> m))
  end.

Record ServiceDiscoveryValue := {
  v_resolver : option Handle;
  v_services : GoMap zeroconf.ServiceEntry;
  v_serviceType : string;
}.

Definition zero_ServiceDiscovery : ServiceDiscoveryValue :=
  {| v_resolver := None; v_services := NilMap; v_serviceType := "" |}.

Definition of_made (sd : ServiceDiscovery) : ServiceDiscoveryValue :=
  {| v_resolver := Some (resolver sd); v_services := MadeMap (services sd);
     v_serviceType := serviceType sd |}.

Inductive Outcome3 (A : Type) : Type :=
| Returned3 (a : A) (w : World)
| Exited3 (w : World)
| Panicked3 (msg : string) (w : World).
Arguments Returned3 {A} a w.
Arguments Exited3 {A} w.
Arguments Panicked3 {A} msg w.

Definition Proc3 (A : Type) : Type := World -> Outcome3 A.

Definition ret3 {A} (a : A) : Proc3 A := fun w => Returned3 a w.

Definition bind3 {A B} (p : Proc3 A) (k : A -> Proc3 B) : Proc3 B :=
  fun w => match p w with
           | Returned3 a w' => k a w'
           | Exited3 w' => Exited3 w'
           | Panicked3 msg w' => Panicked3 msg w'
           end.

Definition lift3 {A} (p : Proc A) : Proc3 A :=
  fun w => match p w with
           | Returned a w' => Returned3 a w'
           | Exited w' => Exited3 w'
           end.

Definition outcome3 {A B} (f : A -> B) (o : Outcome A) : Outcome3 B :=
  match o with
  | Returned a w => Returned3 (f a) w
  | Exited w => Exited3 w
  end.

Definition go_panic {A} (msg : string) : Proc3 A := fun w => Panicked3 msg w.

(** The deferred calls run when the body returns.  A body that panics has
    its deferred calls run too; the only panic of this package comes before
    its only [defer] statement, so there are none to run. *)
Definition with_defers3 {A} (body : Proc3 (A * list (Proc unit))) : Proc3 A :=
  bind3 body (fun r => bind3 (lift3 (run_deferred r.2)) (fun _ => ret3 r.1)).

Section ValueFacade.
Context (eng : Engine).

(** [Register] (lines 52-74) on any [ServiceDiscovery] value. *)
Definition Register_value_body {T} `{Service T} (sd : ServiceDiscoveryValue) (s : T)
  : Proc3 (ServiceDiscoveryValue * list (Proc unit)) :=
  bind3 (lift3 (config_txt eng (Config s))) (fun txtRecords =>
  bind3 (lift3 (zeroconf.Register eng (Hostname s) (ServiceType s) "local." (Port s)
                  txtRecords)) (fun r =>
  bind3 (match r with
         | inr err => lift3 (log_Fatalf ("Failed to register service: " ++ err)%string)
         | inl server => ret3 server
         end) (fun server =>
  bind3 (match map_assign (v_services sd) (ID s)
                 {| zeroconf.HostName := Hostname s;
                    zeroconf.Port := Port s;
                    zeroconf.Text := txtRecords |} with
         | None => go_panic "assignment to entry in nil map"
         | Some services' => ret3 services'
         end) (fun services' =>
  ret3 ({| v_resolver := v_resolver sd; v_services := services';
           v_serviceType := v_serviceType sd |},
        [zeroconf.Shutdown server]))))).

Definition Register_value {T} `{Service T} (sd : ServiceDiscoveryValue) (s : T)
  : Proc3 ServiceDiscoveryValue :=
  with_defers3 (Register_value_body sd s).

(** [GetServices] (lines 77-83) on any [ServiceDiscovery] value. *)
Definition GetServices_value (sd : ServiceDiscoveryValue) : Proc3 (list string) :=
  bind3 (lift3 (go_range eng (map_entries (v_services sd)))) (fun entries =>
  ret3 (foldl (fun ids e => ids ++ [e.1]) [] entries)).

(** [GetServiceById] (lines 87-89) on any [ServiceDiscovery] value. *)
Definition GetServiceById_value (sd : ServiceDiscoveryValue) (id : string)
  : Proc3 (option zeroconf.ServiceEntry) :=
  ret3 (map_entries (v_services sd) !! id).

End ValueFacade.

(** ** Vocabulary of the statements about histories *)

(** The world an outcome ends in, whether the call returned or the process
    exited. *)
Definition world_of {A} (o : Outcome A) : World :=
  match o with
  | Returned _ w => w
  | Exited w => w
  end.

Definition is_fatal (e : Event) : bool :=
  match e with
  | EvFatal _ => true
  | _ => false
  end.

(** No [log.Fatalf] is recorded in a trace. *)
Definition no_fatal (tr : list Event) : Prop :=
  Forall (fun e => is_fatal e = false) tr.

(** Every TXT record of every stored entry has an ["="] in it. *)
Definition records_well_formed (sd : ServiceDiscovery) : Prop :=
  ∀ id e, services sd !! id = Some e →
          Forall (fun t => contains_eq t = true) (zeroconf.Text e).

(** A history that registers the ID ["svc1"] twice, and the state it leads
    to from [fresh_sd] and [started_world]. *)
Definition repeated_id : list Op :=
  [OpRegister svc1; OpRegister svc1'; OpRegister svc2].

Definition sd_repeated : ServiceDiscovery :=
  {| resolver := 0;
     services := <["svc2" := svc2_entry]> (<["svc1" := svc1'_entry]> ∅);
     serviceType := "_myService._tcp" |}.

Definition world_repeated : World :=
  {| trace := [EvNewResolver 0; EvRegister svc1_call 1; EvShutdown 1;
               EvRegister svc1'_call 3; EvShutdown 3;
               EvRegister svc2_call 5; EvShutdown 5];
     live := ∅; ranges := 1 |}.

(** * Properties *)

(** ** Range order *)

Lemma insert_at_Permutation {A} (n : nat) (x : A) (l : list A) :
  insert_at n x l ≡ₚ x :: l.
Proof.
  unfold insert_at. rewrite <- Permutation_middle.
  by rewrite take_drop.
Qed.

Lemma permute_Permutation {A} (seed : nat) (l : list A) : permute seed l ≡ₚ l.
Proof.
  revert seed. induction l as [|x xs IH]; intros seed; simpl; [done|].
  rewrite insert_at_Permutation. by rewrite IH.
Qed.

(** Every order of the entries is the order of some seed. *)
Lemma permute_complete {A} (l l' : list A) :
  l' ≡ₚ l → ∃ seed, permute seed l = l'.
Proof.
  revert l'. induction l as [|x xs IH]; intros l' Hp.
  - exists 0. symmetry. by apply Permutation_nil_r.
  - assert (Hx : x ∈ l') by (rewrite Hp; left).
    apply list_elem_of_split in Hx as (l1 & l2 & ->).
    symmetry in Hp. apply Permutation_cons_app_inv in Hp.
    destruct (IH (l1 ++ l2)) as [seed' Hs]; [by symmetry|].
    assert (Hlen : length l1 + length l2 = length xs).
    { rewrite <- length_app. by rewrite Hp. }
    exists (length l1 + seed' * S (length xs)). cbn [permute].
    rewrite Nat.Div0.mod_add, Nat.div_add by lia.
    rewrite Nat.mod_small, Nat.div_small by lia. cbn [Nat.add].
    rewrite Hs. unfold insert_at.
    by rewrite take_app_length, drop_app_length.
Qed.

Lemma range_map_Permutation {V} (seed : nat) (m : gmap string V) :
  range_map seed m ≡ₚ map_to_list m.
Proof. apply permute_Permutation. Qed.

Lemma range_map_NoDup_keys {V} (seed : nat) (m : gmap string V) :
  NoDup (range_map seed m).*1.
Proof.
  rewrite range_map_Permutation. apply NoDup_fst_map_to_list.
Qed.

Lemma range_map_to_map {V} (seed : nat) (m : gmap string V) :
  list_to_map (range_map seed m) = m.
Proof.
  rewrite <- (list_to_map_to_list m) at 2.
  apply list_to_map_proper; [apply range_map_NoDup_keys|apply range_map_Permutation].
Qed.

(** ** The two loops *)

Lemma encode_loop_fmap (entries : list (string * string)) (acc : list string) :
  encode_loop entries acc = acc ++ (txt_pair <$> entries).
Proof.
  revert acc. induction entries as [|kv es IH]; intros acc; simpl.
  - by rewrite app_nil_r.
  - unfold encode_loop in *. simpl. rewrite IH. by rewrite <- app_assoc.
Qed.

Lemma collect_ids_fmap {V} (entries : list (string * V)) (acc : list string) :
  foldl (fun ids e => ids ++ [e.1]) acc entries = acc ++ entries.*1.
Proof.
  revert acc. induction entries as [|e es IH]; intros acc; simpl.
  - by rewrite app_nil_r.
  - rewrite IH. by rewrite <- app_assoc.
Qed.

(** ** The decoder on what the encoder writes *)

Lemma split_first_eq_txt_pair (k v : string) :
  contains_eq k = false → split_first_eq (txt_pair (k, v)) = Some (k, v).
Proof.
  unfold txt_pair. simpl. induction k as [|c k IH]; simpl; intros Hk.
  - done.
  - destruct (Ascii.eqb c eq_sign); [done|]. by rewrite IH.
Qed.

Lemma mapM_split_txt_pairs (entries : list (string * string)) :
  Forall (fun kv => contains_eq kv.1 = false) entries →
  mapM split_first_eq (txt_pair <$> entries) = Some entries.
Proof.
  induction 1 as [|[k v] es Hk _ IH]; [done|].
  rewrite fmap_cons. cbn [mapM].
  rewrite split_first_eq_txt_pair by done. by rewrite IH.
Qed.

(** ** What each call computes *)

Section Equations.
Context (eng : Engine).

Lemma config_txt_eq (cfg : ConfigValue) (w : World) :
  config_txt eng cfg w =
    Returned (encode_config (range_seed eng (ranges w)) cfg) (after_config cfg w).
Proof.
  unfold config_txt, encode_config, after_config.
  by destruct (assert_string_map cfg).
Qed.

Lemma NewServiceDiscovery_eq (st : string) (w : World) :
  NewServiceDiscovery eng st w =
    match resolver_error eng with
    | Some err =>
        Exited {| trace := trace w ++ [EvNewResolverFailed err;
                                       EvFatal ("Failed to initialize resolver: " ++ err)%string];
                  live := live w; ranges := ranges w |}
    | None =>
        Returned {| resolver := length (trace w); services := ∅; serviceType := st |}
          {| trace := trace w ++ [EvNewResolver (length (trace w))];
             live := live w; ranges := ranges w |}
    end.
Proof.
  unfold NewServiceDiscovery, bind, zeroconf.NewResolver.
  destruct (resolver_error eng); simpl; [|done].
  unfold log_Fatalf. simpl. by rewrite <- app_assoc.
Qed.

Lemma Register_eq {T} `{Service T} (sd : ServiceDiscovery) (s : T) (w : World) :
  Register eng sd s w =
    let txtRecords := encode_config (range_seed eng (ranges w)) (Config s) in
    let w1 := after_config (Config s) w in
    let c := register_call s txtRecords in
    match register_error eng (trace w1) c with
    | Some err =>
        Exited {| trace := trace w1 ++ [EvRegisterFailed c err;
                                        EvFatal ("Failed to register service: " ++ err)%string];
                  live := live w1; ranges := ranges w1 |}
    | None =>
        let h := length (trace w1) in
        Returned {| resolver := resolver sd;
                    services := <[ID s := entry_of s txtRecords]> (services sd);
                    serviceType := serviceType sd |}
          {| trace := trace w1 ++ [EvRegister c h; EvShutdown h];
             live := ({[h]} ∪ live w1) ∖ {[h]}; ranges := ranges w1 |}
    end.
Proof.
  unfold Register, with_defers, Register_body, bind.
  rewrite config_txt_eq. unfold zeroconf.Register. cbn zeta.
  fold (register_call s (encode_config (range_seed eng (ranges w)) (Config s))).
  destruct (register_error eng _ _); simpl.
  - unfold log_Fatalf. simpl. by rewrite <- app_assoc.
  - unfold zeroconf.Shutdown, ret. simpl. by rewrite <- app_assoc.
Qed.

Lemma GetServices_eq (sd : ServiceDiscovery) (w : World) :
  GetServices eng sd w =
    Returned (range_map (range_seed eng (ranges w)) (services sd)).*1 (after_range w).
Proof.
  unfold GetServices, bind, go_range, ret. by rewrite collect_ids_fmap.
Qed.

(** [Register] returns exactly when the engine accepts the registration. *)
Lemma Register_returned {T} `{Service T} (sd sd' : ServiceDiscovery) (s : T) (w w' : World) :
  Register eng sd s w = Returned sd' w' →
  let txtRecords := encode_config (range_seed eng (ranges w)) (Config s) in
  let w1 := after_config (Config s) w in
  register_error eng (trace w1) (register_call s txtRecords) = None ∧
  resolver sd' = resolver sd ∧
  services sd' = <[ID s := entry_of s txtRecords]> (services sd) ∧
  serviceType sd' = serviceType sd ∧
  trace w' = trace w1 ++ [EvRegister (register_call s txtRecords) (length (trace w1));
                          EvShutdown (length (trace w1))] ∧
  live w' = ({[length (trace w1)]} ∪ live w1) ∖ {[length (trace w1)]} ∧
  ranges w' = ranges w1.
Proof.
  rewrite Register_eq. cbn zeta.
  destruct (register_error eng _ _); [done|].
  intros [= <- <-]. by simpl.
Qed.

End Equations.

(** ** Register, then look up *)

(** C1: after [Register(s)] has returned, [GetServiceById(s.ID())] returns a
    present entry whose host name is [s.Hostname()] and whose port is
    [s.Port()]. *)
Theorem Register_then_GetServiceById (eng : Engine) {T} `{Service T}
    (sd sd' : ServiceDiscovery) (s : T) (w w' : World) :
  Register eng sd s w = Returned sd' w' →
  ∃ e, GetServiceById sd' (ID s) w' = Returned (Some e) w' ∧
       zeroconf.HostName e = Hostname s ∧ zeroconf.Port e = Port s.
Proof.
  intros Hreg. apply Register_returned in Hreg as (_ & _ & Hsv & _).
  eexists. unfold GetServiceById, ret.
  rewrite Hsv, lookup_insert_eq. by repeat split.
Qed.

Lemma Register_then_GetServiceById_witness :
  Register quiet_engine fresh_sd svc1 started_world = Returned sd_svc1 world_svc1 ∧
  ∃ e, GetServiceById sd_svc1 "svc1" world_svc1 = Returned (Some e) world_svc1 ∧
       zeroconf.HostName e = "host1" ∧ zeroconf.Port e = 8080%Z.
Proof.
  assert (Hreg : Register quiet_engine fresh_sd svc1 started_world
                 = Returned sd_svc1 world_svc1) by (vm_compute; reflexivity).
  split; [exact Hreg|].
  exact (Register_then_GetServiceById quiet_engine fresh_sd sd_svc1 svc1
           started_world world_svc1 Hreg).
Defined.

(** ** The configuration encoder *)



(** ** Registering an ID twice *)

(** C3: when [s1.ID() == s2.ID()], after [Register(s1)] and then
    [Register(s2)] the lookup of that ID returns the entry built from [s2],
    and the registry is the one before both calls with that single entry
    written over it. *)
Theorem Register_last_write_wins (eng : Engine) {T1} `{Service T1} {T2} `{Service T2}
    (sd sd1 sd2 : ServiceDiscovery) (s1 : T1) (s2 : T2) (w w1 w2 : World) :
  ID s1 = ID s2 →
  Register eng sd s1 w = Returned sd1 w1 →
  Register eng sd1 s2 w1 = Returned sd2 w2 →
  let e2 := entry_of s2 (encode_config (range_seed eng (ranges w1)) (Config s2)) in
  GetServiceById sd2 (ID s1) w2 = Returned (Some e2) w2 ∧
  services sd2 = <[ID s2 := e2]> (services sd).
Proof.
  intros Hid Hr1 Hr2 e2.
  apply Register_returned in Hr1 as (_ & _ & Hsv1 & _).
  apply Register_returned in Hr2 as (_ & _ & Hsv2 & _).
  unfold GetServiceById, ret. rewrite Hsv2, Hsv1, Hid.
  rewrite insert_insert_eq, lookup_insert_eq. done.
Qed.

Lemma Register_last_write_wins_witness :
  Register quiet_engine fresh_sd svc1 started_world = Returned sd_svc1 world_svc1 ∧
  Register quiet_engine sd_svc1 svc1' world_svc1 = Returned sd_svc1' world_svc1' ∧
  GetServiceById sd_svc1' "svc1" world_svc1' = Returned (Some svc1'_entry) world_svc1' ∧
  services sd_svc1' = <["svc1" := svc1'_entry]> ∅.
Proof.
  assert (H1 : Register quiet_engine fresh_sd svc1 started_world
               = Returned sd_svc1 world_svc1) by (vm_compute; reflexivity).
  assert (H2 : Register quiet_engine sd_svc1 svc1' world_svc1
               = Returned sd_svc1' world_svc1') by (vm_compute; reflexivity).
  split; [exact H1|]. split; [exact H2|].
  exact (Register_last_write_wins quiet_engine fresh_sd sd_svc1 sd_svc1' svc1 svc1'
           started_world world_svc1 world_svc1' eq_refl H1 H2).
Defined.

(** ** The registry along a sequence of calls *)

Section Runs.
Context (eng : Engine).

Lemma exec_dom (sd sd' : ServiceDiscovery) (op : Op) (r : Reply) (w w' : World) :
  exec eng sd op w = Returned (r, sd') w' →
  dom (services sd') = dom (services sd) ∪ list_to_set (registered_ids [op]).
Proof.
  destruct op as [T ST s| |id]; unfold exec, bind.
  - destruct (Register eng sd s w) as [sd1 w1|w1] eqn:Hreg; [|done].
    intros [= <- <- <-].
    apply Register_returned in Hreg as (_ & _ & -> & _).
    rewrite dom_insert_L. unfold registered_ids. simpl. set_solver.
  - rewrite GetServices_eq. intros [= <- <- <-].
    unfold registered_ids. simpl. set_solver.
  - unfold GetServiceById, ret. intros [= <- <- <-].
    unfold registered_ids. simpl. set_solver.
Qed.

Lemma run_dom (ops : list Op) (sd sd' : ServiceDiscovery) (rs : list Reply) (w w' : World) :
  run eng sd ops w = Returned (rs, sd') w' →
  dom (services sd') = dom (services sd) ∪ list_to_set (registered_ids ops).
Proof.
  revert sd rs w. induction ops as [|op ops IH]; intros sd rs w; simpl.
  - unfold ret. intros [= <- <- <-]. unfold registered_ids. simpl. set_solver.
  - unfold bind at 1.
    destruct (exec eng sd op w) as [[r sd1] w1|w1] eqn:Hop; [|done].
    unfold bind. simpl.
    destruct (run eng sd1 ops w1) as [[rs' sd2] w2|w2] eqn:Hrun; [|done].
    unfold ret. simpl. intros [= <- <- <-].
    rewrite (IH _ _ _ Hrun), (exec_dom _ _ _ _ _ _ Hop).
    unfold registered_ids. simpl.
    destruct (registered_id op); simpl; set_solver.
Qed.

Lemma NewServiceDiscovery_returned (st : string) (sd : ServiceDiscovery) (w w' : World) :
  NewServiceDiscovery eng st w = Returned sd w' →
  resolver_error eng = None ∧ services sd = ∅ ∧ serviceType sd = st ∧
  trace w' = trace w ++ [EvNewResolver (resolver sd)].
Proof.
  rewrite NewServiceDiscovery_eq.
  destruct (resolver_error eng); [done|].
  by intros [= <- <-].
Qed.

Lemma GetServices_ids (sd : ServiceDiscovery) (w : World) :
  ∃ ids, GetServices eng sd w = Returned ids (after_range w) ∧
         NoDup ids ∧ ∀ id, id ∈ ids ↔ id ∈ dom (services sd).
Proof.
  eexists. split; [apply GetServices_eq|]. split.
  - apply range_map_NoDup_keys.
  - intros id. rewrite range_map_Permutation.
    rewrite elem_of_dom, list_elem_of_fmap. split.
    + intros ([k e] & -> & Hin). apply elem_of_map_to_list in Hin. by exists e.
    + intros [e He]. exists (id, e). split; [done|]. by apply elem_of_map_to_list.
Qed.

End Runs.

(** ** Lookup of an unknown ID *)

(** C4: for an ID that no [Register] call of the history carried,
    [GetServiceById] returns nil (no entry, and not a default one); it
    returns, and the world it returns in is the one it was called in. *)
Theorem GetServiceById_never_registered (eng : Engine) (st : string) (ops : list Op)
    (id : string) (sd0 sd : ServiceDiscovery) (rs : list Reply) (w w0 w1 w2 : World) :
  NewServiceDiscovery eng st w = Returned sd0 w0 →
  run eng sd0 ops w0 = Returned (rs, sd) w1 →
  id ∉ registered_ids ops →
  GetServiceById sd id w2 = Returned None w2.
Proof.
  intros Hnew Hrun Hid.
  apply NewServiceDiscovery_returned in Hnew as (_ & Hempty & _).
  apply run_dom in Hrun. rewrite Hempty, dom_empty_L in Hrun.
  unfold GetServiceById, ret. f_equal.
  apply not_elem_of_dom. rewrite Hrun. set_solver.
Qed.

Lemma GetServiceById_never_registered_witness :
  GetServiceById sd_svc1 "svc2" world_svc1 = Returned None world_svc1.
Proof.
  apply (GetServiceById_never_registered quiet_engine "_myService._tcp"
           [OpRegister svc1; OpGetServices] "svc2" fresh_sd sd_svc1
           [RUnit; RIds ["svc1"]] initial_world started_world
           (after_range world_svc1)).
  - vm_compute. reflexivity.
  - vm_compute. reflexivity.
  - vm_compute. intros Hin. apply list_elem_of_singleton in Hin. discriminate.
Defined.

(** ** Failures *)

Lemma register_attempts_app (tr1 tr2 : list Event) :
  register_attempts (tr1 ++ tr2) = register_attempts tr1 + register_attempts tr2.
Proof. unfold register_attempts. by rewrite filter_app, length_app. Qed.

Lemma register_attempts_after_config (cfg : ConfigValue) (w : World) :
  register_attempts (trace (after_config cfg w)) = register_attempts (trace w).
Proof. unfold after_config. by destruct (assert_string_map cfg). Qed.

(** C5: when the resolver cannot be built, [NewServiceDiscovery] ends the
    process, and when the engine refuses a registration, [Register] ends the
    process after that one attempt; a call that returns has met no failure
    and hands back no error. *)
Theorem failures_abort (eng : Engine) :
  (∀ st w err, resolver_error eng = Some err →
     ∃ w', NewServiceDiscovery eng st w = Exited w' ∧
           trace w' = trace w ++ [EvNewResolverFailed err;
                                  EvFatal ("Failed to initialize resolver: " ++ err)%string]) ∧
  (∀ T (ST : Service T) (s : T) sd w err,
     let txtRecords := encode_config (range_seed eng (ranges w)) (Config s) in
     let w1 := after_config (Config s) w in
     register_error eng (trace w1) (register_call s txtRecords) = Some err →
     ∃ w', Register eng sd s w = Exited w' ∧
           trace w' = trace w1 ++ [EvRegisterFailed (register_call s txtRecords) err;
                                   EvFatal ("Failed to register service: " ++ err)%string] ∧
           register_attempts (trace w') = S (register_attempts (trace w))) ∧
  (∀ st w sd w', NewServiceDiscovery eng st w = Returned sd w' → resolver_error eng = None) ∧
  (∀ T (ST : Service T) (s : T) sd w sd' w',
     Register eng sd s w = Returned sd' w' →
     register_error eng (trace (after_config (Config s) w))
       (register_call s (encode_config (range_seed eng (ranges w)) (Config s))) = None ∧
     register_attempts (trace w') = S (register_attempts (trace w))).
Proof.
  split; [|split; [|split]].
  - intros st w err Herr. rewrite NewServiceDiscovery_eq, Herr. by eexists.
  - intros T ST s sd w err txtRecords w1 Herr.
    rewrite Register_eq. cbn zeta. fold txtRecords w1. rewrite Herr.
    eexists. split; [done|]. split; [done|]. simpl.
    rewrite register_attempts_app. unfold w1.
    rewrite register_attempts_after_config. unfold register_attempts. simpl. lia.
  - intros st w sd w' Hnew. by apply NewServiceDiscovery_returned in Hnew as [? _].
  - intros T ST s sd w sd' w' Hreg.
    apply Register_returned in Hreg as (Hok & _ & _ & _ & Htr & _).
    split; [exact Hok|]. rewrite Htr.
    rewrite register_attempts_app, register_attempts_after_config.
    unfold register_attempts. simpl. lia.
Qed.

Lemma failures_abort_witness :
  (∃ w', NewServiceDiscovery no_resolver_engine "_myService._tcp" initial_world = Exited w' ∧
         trace w' = [EvNewResolverFailed "no interface";
                     EvFatal "Failed to initialize resolver: no interface"]) ∧
  (∃ w', Register refusing_engine fresh_sd svc1 started_world = Exited w' ∧
         trace w' = [EvNewResolver 0; EvRegisterFailed svc1_call "no interface";
                     EvFatal "Failed to register service: no interface"] ∧
         register_attempts (trace w') = 1) ∧
  resolver_error quiet_engine = None ∧
  register_attempts (trace world_svc1) = 1.
Proof.
  split; [|split; [|split]].
  - exact (proj1 (failures_abort no_resolver_engine)
             "_myService._tcp" initial_world "no interface" eq_refl).
  - exact (proj1 (proj2 (failures_abort refusing_engine))
             StaticService _ svc1 fresh_sd started_world "no interface" eq_refl).
  - apply (proj1 (proj2 (proj2 (failures_abort quiet_engine)))
             "_myService._tcp" initial_world fresh_sd started_world).
    vm_compute. reflexivity.
  - apply (proj2 (proj2 (proj2 (failures_abort quiet_engine)))
             StaticService _ svc1 fresh_sd started_world sd_svc1 world_svc1).
    vm_compute. reflexivity.
Defined.

(** ** Listing the registered IDs *)

(** C6: after services with pairwise distinct IDs have been registered on a
    new [ServiceDiscovery], [GetServices] returns as many IDs as services
    were registered, without repetition, and they are the registered IDs in
    some order. *)
Theorem GetServices_distinct_ids (eng : Engine) (st : string) (ops : list Op)
    (sd0 sd : ServiceDiscovery) (rs : list Reply) (w w0 w1 : World) :
  NewServiceDiscovery eng st w = Returned sd0 w0 →
  run eng sd0 ops w0 = Returned (rs, sd) w1 →
  NoDup (registered_ids ops) →
  ∃ ids, GetServices eng sd w1 = Returned ids (after_range w1) ∧
         length ids = length (registered_ids ops) ∧
         NoDup ids ∧
         ids ≡ₚ registered_ids ops.
Proof.
  intros Hnew Hrun Hnd.
  apply NewServiceDiscovery_returned in Hnew as (_ & Hempty & _).
  apply run_dom in Hrun. rewrite Hempty, dom_empty_L in Hrun.
  destruct (GetServices_ids eng sd w1) as (ids & Hget & Hids & Hmem).
  assert (Hperm : ids ≡ₚ registered_ids ops).
  { apply NoDup_Permutation; [done..|].
    intros id. rewrite Hmem, Hrun. set_solver. }
  exists ids. repeat split; [done| |done|done].
  by rewrite Hperm.
Qed.

Lemma GetServices_distinct_ids_witness :
  run quiet_engine fresh_sd two_services started_world
    = Returned ([RUnit; REntry (Some svc1_entry); RUnit], sd_two) world_two ∧
  ∃ ids, GetServices quiet_engine sd_two world_two = Returned ids (after_range world_two) ∧
         length ids = 2 ∧ NoDup ids ∧ ids ≡ₚ ["svc1"; "svc2"].
Proof.
  assert (Hnew : NewServiceDiscovery quiet_engine "_myService._tcp" initial_world
                 = Returned fresh_sd started_world) by (vm_compute; reflexivity).
  assert (Hrun : run quiet_engine fresh_sd two_services started_world
                 = Returned ([RUnit; REntry (Some svc1_entry); RUnit], sd_two) world_two)
    by (vm_compute; reflexivity).
  assert (Hnd : NoDup (registered_ids two_services)).
  { vm_compute. apply NoDup_cons. split; [|apply NoDup_singleton].
    intros Hin. apply list_elem_of_singleton in Hin. discriminate. }
  split; [exact Hrun|].
  exact (GetServices_distinct_ids quiet_engine "_myService._tcp" two_services fresh_sd
           sd_two [RUnit; REntry (Some svc1_entry); RUnit] initial_world started_world
           world_two Hnew Hrun Hnd).
Defined.

(** ** Encoding and decoding the configuration *)

(** C7: for a [map[string]string] configuration in which no key and no value
    contains ["="], the TXT records hold one ["key=value"] string per entry
    of the map, and splitting each record at its first ["="] gives back the
    entries of the map, hence the map itself. *)
Theorem config_txt_roundtrip (eng : Engine) (m : gmap string string) (w : World) :
  (∀ k v, m !! k = Some v → contains_eq k = false ∧ contains_eq v = false) →
  ∃ txt pairs,
    config_txt eng (CfgStringMap m) w = Returned txt (after_range w) ∧
    length txt = size m ∧
    txt ≡ₚ txt_pair <$> map_to_list m ∧
    mapM split_first_eq txt = Some pairs ∧
    pairs ≡ₚ map_to_list m ∧
    decode_txt txt = Some m.
Proof.
  intros Hclean.
  set (entries := range_map (range_seed eng (ranges w)) m).
  assert (Hperm : entries ≡ₚ map_to_list m) by apply range_map_Permutation.
  assert (Hdec : mapM split_first_eq (txt_pair <$> entries) = Some entries).
  { apply mapM_split_txt_pairs, Forall_forall. intros [k v] Hin.
    rewrite Hperm in Hin. apply elem_of_map_to_list in Hin.
    by destruct (Hclean k v Hin). }
  exists (txt_pair <$> entries), entries. repeat split.
  - rewrite config_txt_eq. unfold encode_config. simpl.
    by rewrite encode_loop_fmap.
  - by rewrite length_fmap, Hperm, length_map_to_list.
  - by rewrite Hperm.
  - done.
  - done.
  - unfold decode_txt. rewrite Hdec. simpl. f_equal. apply range_map_to_map.
Qed.

Lemma config_txt_roundtrip_witness :
  ∃ txt pairs,
    config_txt quiet_engine (ss_config svc1) started_world
      = Returned txt (after_range started_world) ∧
    length txt = 2 ∧
    txt ≡ₚ ["env=prod"; "v=1"] ∧
    mapM split_first_eq txt = Some pairs ∧
    pairs ≡ₚ [("env", "prod"); ("v", "1")] ∧
    decode_txt txt = Some (<["v" := "1"]> (<["env" := "prod"]> ∅)).
Proof.
  assert (Hclean : ∀ k v, (<["v" := "1"]> (<["env" := "prod"]> ∅) : gmap string string) !! k
                           = Some v →
                          contains_eq k = false ∧ contains_eq v = false).
  { intros k v Hkv. apply elem_of_map_to_list in Hkv. vm_compute in Hkv.
    apply elem_of_cons in Hkv as [Hkv|Hkv];
      [injection Hkv as -> ->; split; reflexivity|].
    apply list_elem_of_singleton in Hkv. injection Hkv as -> ->. split; reflexivity. }
  exact (config_txt_roundtrip quiet_engine (<["v" := "1"]> (<["env" := "prod"]> ∅))
           started_world Hclean).
Defined.

(** ** The registration handle *)

Lemma trace_after_config (cfg : ConfigValue) (w : World) :
  trace (after_config cfg w) = trace w ∧ live (after_config cfg w) = live w.
Proof. unfold after_config. by destruct (assert_string_map cfg). Qed.

(** C8: when [Register(s)] returns, the server it obtained from
    [zeroconf.Register] has been shut down: the shutdown is the last thing
    the call did, and the server is not among the live announcements. *)
Theorem Register_releases_handle (eng : Engine) {T} `{Service T}
    (sd sd' : ServiceDiscovery) (s : T) (w w' : World) :
  Register eng sd s w = Returned sd' w' →
  ∃ c h, trace w' = trace w ++ [EvRegister c h; EvShutdown h] ∧
         (h ∉ live w') ∧
         live w' = live w ∖ {[h]}.
Proof.
  intros Hreg.
  apply Register_returned in Hreg as (_ & _ & _ & _ & Htr & Hlive & _).
  destruct (trace_after_config (Config s) w) as [Et El].
  rewrite Et in Htr, Hlive. rewrite El in Hlive.
  eexists _, _. split; [exact Htr|]. rewrite Hlive. split; set_solver.
Qed.

Lemma Register_releases_handle_witness :
  ∃ c h, trace world_svc1 = trace started_world ++ [EvRegister c h; EvShutdown h] ∧
         (h ∉ live world_svc1) ∧
         live world_svc1 = live started_world ∖ {[h]}.
Proof.
  apply (Register_releases_handle quiet_engine fresh_sd sd_svc1 svc1 started_world world_svc1).
  vm_compute. reflexivity.
Defined.

(** ** What a call leaves alone *)

(** C9: [Register(s)] leaves the entry of every ID other than [s.ID()] as it
    was, and no call on a [ServiceDiscovery], alone or in a sequence, takes
    an ID out of the registry. *)
Theorem registry_frame (eng : Engine) :
  (∀ T (ST : Service T) (s : T) sd w sd' w' id,
     id ≠ ID s → Register eng sd s w = Returned sd' w' →
     services sd' !! id = services sd !! id) ∧
  (∀ sd op w r sd' w' id,
     exec eng sd op w = Returned (r, sd') w' →
     is_Some (services sd !! id) → is_Some (services sd' !! id)) ∧
  (∀ ops sd w rs sd' w' id,
     run eng sd ops w = Returned (rs, sd') w' →
     is_Some (services sd !! id) → is_Some (services sd' !! id)).
Proof.
  split; [|split].
  - intros T ST s sd w sd' w' id Hne Hreg.
    apply Register_returned in Hreg as (_ & _ & -> & _).
    by rewrite lookup_insert_ne.
  - intros sd op w r sd' w' id Hop Hin.
    apply exec_dom in Hop. apply elem_of_dom. rewrite Hop.
    apply elem_of_union_l. by apply elem_of_dom.
  - intros ops sd w rs sd' w' id Hrun Hin.
    apply run_dom in Hrun. apply elem_of_dom. rewrite Hrun.
    apply elem_of_union_l. by apply elem_of_dom.
Qed.

Lemma registry_frame_witness :
  services sd_two !! "svc1" = services sd_svc1 !! "svc1" ∧
  is_Some (services sd_two !! "svc1").
Proof.
  assert (Hreg : Register quiet_engine sd_svc1 svc2 world_svc1 = Returned sd_two world_two)
    by (vm_compute; reflexivity).
  assert (Hrun : run quiet_engine sd_svc1 [OpGetServices; OpRegister svc2;
                                           OpGetServiceById "svc2"] world_svc1
                 = Returned ([RIds ["svc1"]; RUnit; REntry (Some svc2_entry)], sd_two)
                            (after_range world_two))
    by (vm_compute; reflexivity).
  split.
  - apply (proj1 (registry_frame quiet_engine) StaticService _ svc2 sd_svc1 world_svc1
             sd_two world_two "svc1"); [discriminate|exact Hreg].
  - apply (proj2 (proj2 (registry_frame quiet_engine)) _ sd_svc1 world_svc1 _ sd_two _
             "svc1" Hrun).
    exists svc1_entry. vm_compute. reflexivity.
Defined.

(** ** The configured service type *)

Section ServiceTypeUnused.
Context (eng : Engine).

Lemma exec_same_up_to_serviceType (sd1 sd2 : ServiceDiscovery) (op : Op) (w : World) :
  resolver sd1 = resolver sd2 → services sd1 = services sd2 →
  same_up_to_serviceType (exec eng sd1 op w) (exec eng sd2 op w).
Proof.
  intros Hres Hsv. destruct op as [T ST s| |id]; unfold exec, bind.
  - rewrite !Register_eq. cbn zeta.
    destruct (register_error eng _ _); simpl; [done|].
    by rewrite Hres, Hsv.
  - rewrite !GetServices_eq, Hsv. by simpl.
  - unfold GetServiceById, ret. rewrite Hsv. by simpl.
Qed.

Lemma run_same_up_to_serviceType (ops : list Op) (sd1 sd2 : ServiceDiscovery) (w : World) :
  resolver sd1 = resolver sd2 → services sd1 = services sd2 →
  same_up_to_serviceType (run eng sd1 ops w) (run eng sd2 ops w).
Proof.
  revert sd1 sd2 w. induction ops as [|op ops IH]; intros sd1 sd2 w Hres Hsv.
  - by simpl.
  - pose proof (exec_same_up_to_serviceType sd1 sd2 op w Hres Hsv) as Hop.
    simpl. unfold bind at 1 3.
    destruct (exec eng sd1 op w) as [[r1 s1] w1|w1],
             (exec eng sd2 op w) as [[r2 s2] w2|w2]; simpl in Hop; try done.
    destruct Hop as (-> & Hres' & Hsv' & ->).
    specialize (IH s1 s2 w2 Hres' Hsv').
    unfold bind. simpl.
    destruct (run eng s1 ops w2) as [[rs1 t1] v1|v1],
             (run eng s2 ops w2) as [[rs2 t2] v2|v2]; simpl in *; try done.
    destruct IH as (-> & ? & ? & ->). done.
Qed.

End ServiceTypeUnused.

(** C10: [Register] hands the service's own [ServiceType()] to
    [zeroconf.Register], and the service type given to [NewServiceDiscovery]
    has no influence: two instances that differ only in it answer every
    sequence of calls alike and end with the same registry, and so do two
    sessions that differ only in the service type passed to
    [NewServiceDiscovery]. *)
Theorem serviceType_never_read (eng : Engine) :
  (∀ T (ST : Service T) (s : T) sd w sd' w',
     Register eng sd s w = Returned sd' w' →
     ∃ c h, trace w' = trace w ++ [EvRegister c h; EvShutdown h] ∧
            rc_service c = ServiceType s) ∧
  (∀ st sd ops w,
     same_up_to_serviceType (run eng sd ops w) (run eng (with_serviceType st sd) ops w)) ∧
  (∀ st1 st2 ops w,
     same_up_to_serviceType (session eng st1 ops w) (session eng st2 ops w)).
Proof.
  split; [|split].
  - intros T ST s sd w sd' w' Hreg.
    apply Register_returned in Hreg as (_ & _ & _ & _ & Htr & _).
    destruct (trace_after_config (Config s) w) as [Et _]. rewrite Et in Htr.
    by eexists _, _.
  - intros st sd ops w. by apply run_same_up_to_serviceType.
  - intros st1 st2 ops w. unfold session, bind.
    rewrite !NewServiceDiscovery_eq.
    destruct (resolver_error eng); [done|].
    by apply run_same_up_to_serviceType.
Qed.

Lemma serviceType_never_read_witness :
  (∃ c h, trace world_svc1' = trace world_svc1 ++ [EvRegister c h; EvShutdown h] ∧
          rc_service c = "_other._tcp") ∧
  same_up_to_serviceType (run quiet_engine fresh_sd two_services started_world)
    (run quiet_engine (with_serviceType "_printer._udp" fresh_sd) two_services started_world) ∧
  same_up_to_serviceType (session refusing_engine "_myService._tcp" two_services initial_world)
    (session refusing_engine "_printer._udp" two_services initial_world).
Proof.
  split; [|split].
  - assert (Hreg : Register quiet_engine sd_svc1 svc1' world_svc1
                   = Returned sd_svc1' world_svc1') by (vm_compute; reflexivity).
    exact (proj1 (serviceType_never_read quiet_engine) StaticService _ svc1' sd_svc1
             world_svc1 sd_svc1' world_svc1' Hreg).
  - exact (proj1 (proj2 (serviceType_never_read quiet_engine)) "_printer._udp" fresh_sd
             two_services started_world).
  - exact (proj2 (proj2 (serviceType_never_read refusing_engine)) "_myService._tcp"
             "_printer._udp" two_services initial_world).
Defined.

(** * Further properties of the package *)

(** ** How a history unfolds *)

Section Histories.
Context (eng : Engine).

Lemma run_cons_returned (op : Op) (ops : list Op) (sd sd' : ServiceDiscovery)
    (rs : list Reply) (w w' : World) :
  run eng sd (op :: ops) w = Returned (rs, sd') w' →
  ∃ r rs' sd1 w1,
    exec eng sd op w = Returned (r, sd1) w1 ∧
    run eng sd1 ops w1 = Returned (rs', sd') w' ∧
    rs = r :: rs'.
Proof.
  simpl. unfold bind at 1.
  destruct (exec eng sd op w) as [[r sd1] w1|w1] eqn:Hop; [|done].
  unfold bind. simpl.
  destruct (run eng sd1 ops w1) as [[rs' sd2] w2|w2] eqn:Hrun; [|done].
  unfold ret. simpl. intros [= <- <- <-]. by eexists _, _, _, _.
Qed.

Lemma run_cons_exited (op : Op) (ops : list Op) (sd : ServiceDiscovery) (w w' : World) :
  run eng sd (op :: ops) w = Exited w' →
  exec eng sd op w = Exited w' ∨
  ∃ r sd1 w1, exec eng sd op w = Returned (r, sd1) w1 ∧ run eng sd1 ops w1 = Exited w'.
Proof.
  simpl. unfold bind at 1.
  destruct (exec eng sd op w) as [[r sd1] w1|w1] eqn:Hop.
  - unfold bind. simpl.
    destruct (run eng sd1 ops w1) as [[rs' sd2] w2|w2] eqn:Hrun; [done|].
    intros [= <-]. right. by eexists _, _, _.
  - intros [= <-]. by left.
Qed.

(** A property of the registry and the world that every returning call
    keeps is kept by every returning history. *)
Lemma run_invariant (P : ServiceDiscovery → World → Prop) :
  (∀ sd op w r sd' w', exec eng sd op w = Returned (r, sd') w' → P sd w → P sd' w') →
  ∀ ops sd w rs sd' w',
    run eng sd ops w = Returned (rs, sd') w' → P sd w → P sd' w'.
Proof.
  intros Hstep ops. induction ops as [|op ops IH]; intros sd w rs sd' w' Hrun HP.
  - simpl in Hrun. unfold ret in Hrun. by injection Hrun as <- <- <-.
  - apply run_cons_returned in Hrun as (r & rs' & sd1 & w1 & Hop & Hrun & _).
    eapply IH; [exact Hrun|]. eapply Hstep; [exact Hop|exact HP].
Qed.

(** A history that exits does so in one of its [Register] calls, after the
    calls before it have returned. *)
Lemma run_exited (ops : list Op) (sd : ServiceDiscovery) (w w' : World) :
  run eng sd ops w = Exited w' →
  ∃ ops1 op ops2 rs sd1 w1,
    ops = ops1 ++ op :: ops2 ∧
    run eng sd ops1 w = Returned (rs, sd1) w1 ∧
    exec eng sd1 op w1 = Exited w'.
Proof.
  revert sd w. induction ops as [|op ops IH]; intros sd w Hrun; [done|].
  apply run_cons_exited in Hrun as [Hop|(r & sd1 & w1 & Hop & Hrun)].
  - by exists [], op, ops, [], sd, w.
  - destruct (IH _ _ Hrun) as (ops1 & op' & ops2 & rs & sd2 & w2 & -> & Hrun1 & Hop').
    exists (op :: ops1), op', ops2, (r :: rs), sd2, w2. split; [done|]. split; [|done].
    simpl. unfold bind at 1. rewrite Hop. unfold bind. simpl. by rewrite Hrun1.
Qed.

Lemma run_app_returned (ops1 ops2 : list Op) (sd sd' : ServiceDiscovery)
    (rs : list Reply) (w w' : World) :
  run eng sd (ops1 ++ ops2) w = Returned (rs, sd') w' →
  ∃ rs1 rs2 sd1 w1,
    run eng sd ops1 w = Returned (rs1, sd1) w1 ∧
    run eng sd1 ops2 w1 = Returned (rs2, sd') w' ∧
    rs = rs1 ++ rs2.
Proof.
  revert sd rs w. induction ops1 as [|op ops1 IH]; intros sd rs w Hrun.
  - by exists [], rs, sd, w.
  - simpl in Hrun.
    apply run_cons_returned in Hrun as (r & rs' & sd1 & w1 & Hop & Hrun & ->).
    destruct (IH _ _ _ Hrun) as (rs1 & rs2 & sd2 & w2 & Hrun1 & Hrun2 & ->).
    exists (r :: rs1), rs2, sd2, w2. split; [|done].
    simpl. unfold bind at 1. rewrite Hop. unfold bind. simpl. by rewrite Hrun1.
Qed.

(** What one call does to the registry and to the world. *)
Lemma exec_returned (sd sd' : ServiceDiscovery) (op : Op) (r : Reply) (w w' : World) :
  exec eng sd op w = Returned (r, sd') w' →
  match op with
  | OpRegister s => Register eng sd s w = Returned sd' w' ∧ r = RUnit
  | OpGetServices =>
      sd' = sd ∧ w' = after_range w ∧
      r = RIds (range_map (range_seed eng (ranges w)) (services sd)).*1
  | OpGetServiceById id => sd' = sd ∧ w' = w ∧ r = REntry (services sd !! id)
  end.
Proof.
  destruct op as [T ST s| |id]; unfold exec, bind.
  - destruct (Register eng sd s w) as [sd1 w1|w1]; [|done].
    unfold ret. by intros [= <- <- <-].
  - rewrite GetServices_eq. unfold ret. by intros [= <- <- <-].
  - unfold GetServiceById, ret. by intros [= <- <- <-].
Qed.

Lemma exec_exited (sd : ServiceDiscovery) (op : Op) (w w' : World) :
  exec eng sd op w = Exited w' →
  ∃ T (ST : Service T) (s : T), op = OpRegister s ∧ Register eng sd s w = Exited w'.
Proof.
  destruct op as [T ST s| |id]; unfold exec, bind.
  - destruct (Register eng sd s w) as [sd1 w1|w1] eqn:Hreg; [done|].
    intros [= <-]. by exists T, ST, s.
  - by rewrite GetServices_eq.
  - done.
Qed.

Lemma Register_exited {T} `{Service T} (sd : ServiceDiscovery) (s : T) (w w' : World) :
  Register eng sd s w = Exited w' →
  ∃ c err, trace w' = trace w ++ [EvRegisterFailed c err;
                                  EvFatal ("Failed to register service: " ++ err)%string] ∧
           live w' = live w.
Proof.
  rewrite Register_eq. cbn zeta.
  destruct (trace_after_config (Config s) w) as [Et El].
  destruct (register_error eng _ _) as [err|]; [|done].
  intros [= <-]. simpl. rewrite Et, El. by eexists _, _.
Qed.

End Histories.

(** ** Listing and looking up after any history *)

Lemma run_lookup_other (eng : Engine) (ops : list Op) (sd sd' : ServiceDiscovery)
    (rs : list Reply) (w w' : World) (id : string) :
  run eng sd ops w = Returned (rs, sd') w' →
  id ∉ registered_ids ops →
  services sd' !! id = services sd !! id.
Proof.
  revert sd rs w. induction ops as [|op ops IH]; intros sd rs w Hrun Hid.
  - simpl in Hrun. unfold ret in Hrun. by injection Hrun as <- <- <-.
  - apply run_cons_returned in Hrun as (r & rs' & sd1 & w1 & Hop & Hrun & _).
    assert (Hid' : id ∉ registered_ids ops).
    { intros Hin. apply Hid. unfold registered_ids in *. simpl.
      destruct (registered_id op); [by right|done]. }
    rewrite (IH _ _ _ Hrun Hid').
    apply exec_returned in Hop. destruct op as [T ST s| |id'].
    + destruct Hop as [Hreg _].
      apply Register_returned in Hreg as (_ & _ & -> & _).
      apply lookup_insert_ne. intros Heq. apply Hid.
      unfold registered_ids. simpl. rewrite Heq. by left.
    + by destruct Hop as (-> & _).
    + by destruct Hop as (-> & _).
Qed.

Lemma encode_config_any_order (seed1 seed2 : nat) (cfg : ConfigValue) :
  encode_config seed1 cfg ≡ₚ encode_config seed2 cfg.
Proof.
  unfold encode_config. destruct (assert_string_map cfg) as [m|]; [|done].
  rewrite !encode_loop_fmap. simpl.
  by rewrite !range_map_Permutation.
Qed.

(** X1: after any history on a new [ServiceDiscovery], also one that
    registers an ID several times, [GetServices] returns every registered ID
    once: no ID twice, an ID exactly when some [Register] call carried it,
    and never more IDs than [Register] calls. *)
Theorem GetServices_after_history (eng : Engine) (st : string) (ops : list Op)
    (sd0 sd : ServiceDiscovery) (rs : list Reply) (w w0 w1 : World) :
  NewServiceDiscovery eng st w = Returned sd0 w0 →
  run eng sd0 ops w0 = Returned (rs, sd) w1 →
  ∃ ids, GetServices eng sd w1 = Returned ids (after_range w1) ∧
         NoDup ids ∧
         (∀ id, id ∈ ids ↔ id ∈ registered_ids ops) ∧
         (length ids ≤ length (registered_ids ops))%nat.
Proof.
  intros Hnew Hrun.
  apply NewServiceDiscovery_returned in Hnew as (_ & Hempty & _).
  apply run_dom in Hrun. rewrite Hempty, dom_empty_L in Hrun.
  destruct (GetServices_ids eng sd w1) as (ids & Hget & Hnd & Hmem).
  assert (Hiff : ∀ id, id ∈ ids ↔ id ∈ registered_ids ops).
  { intros id. rewrite Hmem, Hrun. set_solver. }
  exists ids. repeat split; try done; try apply Hiff.
  apply submseteq_length, NoDup_submseteq; [done|]. intros id. apply Hiff.
Qed.

Lemma GetServices_after_history_witness :
  ∃ ids, GetServices quiet_engine sd_repeated world_repeated
           = Returned ids (after_range world_repeated) ∧
         NoDup ids ∧
         (∀ id, id ∈ ids ↔ id ∈ ["svc1"; "svc1"; "svc2"]) ∧
         (length ids ≤ 3)%nat.
Proof.
  assert (Hnew : NewServiceDiscovery quiet_engine "_myService._tcp" initial_world
                 = Returned fresh_sd started_world) by (vm_compute; reflexivity).
  assert (Hrun : run quiet_engine fresh_sd repeated_id started_world
                 = Returned ([RUnit; RUnit; RUnit], sd_repeated) world_repeated)
    by (vm_compute; reflexivity).
  exact (GetServices_after_history quiet_engine "_myService._tcp" repeated_id fresh_sd
           sd_repeated [RUnit; RUnit; RUnit] initial_world started_world world_repeated
           Hnew Hrun).
Defined.

(** X2: [GetServices] and [GetServiceById] agree on every
    [ServiceDiscovery]: an ID is in the list [GetServices] returns exactly
    when [GetServiceById] returns an entry for it, and never nil for a
    listed ID. *)
Theorem GetServices_lists_what_GetServiceById_finds (eng : Engine)
    (sd : ServiceDiscovery) (w : World) :
  ∃ ids, GetServices eng sd w = Returned ids (after_range w) ∧
         ∀ id w2, id ∈ ids ↔ ∃ e, GetServiceById sd id w2 = Returned (Some e) w2.
Proof.
  destruct (GetServices_ids eng sd w) as (ids & Hget & _ & Hmem).
  exists ids. split; [done|]. intros id w2.
  rewrite Hmem, elem_of_dom. unfold GetServiceById, ret. split.
  - intros [e He]. exists e. by rewrite He.
  - intros [e He]. exists e. by injection He.
Qed.

(** X3: a history in which no [Register] call carries [id] leaves the
    answer of [GetServiceById(id)] as it was before the history, entry or
    nil. *)
Theorem lookup_stable_across_history (eng : Engine) (ops : list Op)
    (sd sd' : ServiceDiscovery) (rs : list Reply) (w w' w2 : World) (id : string) :
  run eng sd ops w = Returned (rs, sd') w' →
  id ∉ registered_ids ops →
  GetServiceById sd' id w2 = GetServiceById sd id w2.
Proof.
  intros Hrun Hid. unfold GetServiceById, ret.
  by rewrite (run_lookup_other _ _ _ _ _ _ _ _ Hrun Hid).
Qed.

Lemma lookup_stable_across_history_witness :
  GetServiceById sd_two "svc1" initial_world = GetServiceById sd_svc1 "svc1" initial_world.
Proof.
  apply (lookup_stable_across_history quiet_engine
           [OpGetServices; OpRegister svc2; OpGetServiceById "svc2"]
           sd_svc1 sd_two [RIds ["svc1"]; RUnit; REntry (Some svc2_entry)]
           world_svc1 (after_range world_two) initial_world "svc1").
  - vm_compute. reflexivity.
  - vm_compute. intros Hin. apply list_elem_of_singleton in Hin. discriminate.
Defined.

(** X4: in a history, the last [Register] call that carries an ID decides
    what [GetServiceById] returns for it afterwards: the host name and port
    of that service, and the TXT records of its configuration in some
    order. *)
Theorem last_registration_wins (eng : Engine) {T} `{Service T} (s : T)
    (ops1 ops2 : list Op) (sd sd' : ServiceDiscovery) (rs : list Reply)
    (w w' w2 : World) :
  run eng sd (ops1 ++ OpRegister s :: ops2) w = Returned (rs, sd') w' →
  ID s ∉ registered_ids ops2 →
  ∃ e, GetServiceById sd' (ID s) w2 = Returned (Some e) w2 ∧
       zeroconf.HostName e = Hostname s ∧
       zeroconf.Port e = Port s ∧
       zeroconf.Text e ≡ₚ encode_config 0 (Config s).
Proof.
  intros Hrun Hid.
  apply run_app_returned in Hrun as (rs1 & rs2 & sd1 & w1 & _ & Hrun & _).
  apply run_cons_returned in Hrun as (r & rs' & sd2 & w3 & Hop & Hrun & _).
  apply exec_returned in Hop as [Hreg _].
  apply Register_returned in Hreg as (_ & _ & Hsv & _).
  eexists. unfold GetServiceById, ret.
  rewrite (run_lookup_other _ _ _ _ _ _ _ _ Hrun Hid), Hsv, lookup_insert_eq.
  split; [done|]. simpl. split; [done|]. split; [done|].
  apply encode_config_any_order.
Qed.

Lemma last_registration_wins_witness :
  ∃ e, GetServiceById sd_repeated "svc1" initial_world = Returned (Some e) initial_world ∧
       zeroconf.HostName e = "host9" ∧
       zeroconf.Port e = 9090%Z ∧
       zeroconf.Text e ≡ₚ [].
Proof.
  assert (Hrun : run quiet_engine fresh_sd ([OpRegister svc1] ++ OpRegister svc1' ::
                                            [OpRegister svc2]) started_world
                 = Returned ([RUnit; RUnit; RUnit], sd_repeated) world_repeated)
    by (vm_compute; reflexivity).
  assert (Hid : ID svc1' ∉ registered_ids [OpRegister svc2]).
  { vm_compute. intros Hin. apply list_elem_of_singleton in Hin. discriminate. }
  exact (last_registration_wins quiet_engine svc1' [OpRegister svc1] [OpRegister svc2]
           fresh_sd sd_repeated [RUnit; RUnit; RUnit] started_world world_repeated
           initial_world Hrun Hid).
Defined.

(** ** The engine along a history *)

Section EngineCalls.
Context (eng : Engine).


Lemma exec_no_fatal (sd sd' : ServiceDiscovery) (op : Op) (r : Reply) (w w' : World) :
  exec eng sd op w = Returned (r, sd') w' → no_fatal (trace w) → no_fatal (trace w').
Proof.
  intros Hop Hnf. apply exec_returned in Hop. destruct op as [T ST s| |id].
  - destruct Hop as [Hreg _].
    apply Register_returned in Hreg as (_ & _ & _ & _ & Htr & _).
    destruct (trace_after_config (Config s) w) as [Et _].
    rewrite Htr, Et. apply Forall_app. split; [done|].
    by repeat constructor.
  - by destruct Hop as (_ & -> & _).
  - by destruct Hop as (_ & -> & _).
Qed.

Lemma registered_ids_cons (op : Op) (ops : list Op) :
  registered_ids (op :: ops) =
    match registered_id op with
    | Some id => id :: registered_ids ops
    | None => registered_ids ops
    end.
Proof. unfold registered_ids. simpl. by destruct (registered_id op). Qed.

Lemma run_register_attempts (ops : list Op) (sd sd' : ServiceDiscovery)
    (rs : list Reply) (w w' : World) :
  run eng sd ops w = Returned (rs, sd') w' →
  register_attempts (trace w') = register_attempts (trace w) + length (registered_ids ops).
Proof.
  revert sd rs w. induction ops as [|op ops IH]; intros sd rs w Hrun.
  - simpl in Hrun. unfold ret in Hrun. injection Hrun as <- <- <-. simpl. lia.
  - apply run_cons_returned in Hrun as (r & rs' & sd1 & w1 & Hop & Hrun & _).
    rewrite (IH _ _ _ Hrun), registered_ids_cons. apply exec_returned in Hop.
    destruct op as [T ST s| |id]; simpl.
    + destruct Hop as [Hreg _].
      apply Register_returned in Hreg as (_ & _ & _ & _ & Htr & _).
      rewrite Htr, register_attempts_app, register_attempts_after_config.
      unfold register_attempts at 2. simpl. lia.
    + by destruct Hop as (_ & -> & _).
    + by destruct Hop as (_ & -> & _).
Qed.

End EngineCalls.

(** X5: a history that returns has called [zeroconf.Register] once for each
    of its [Register] calls, also for an ID that was registered before:
    nothing is skipped and nothing is tried twice. *)
Theorem one_engine_call_per_Register (eng : Engine) (ops : list Op)
    (sd sd' : ServiceDiscovery) (rs : list Reply) (w w' : World) :
  run eng sd ops w = Returned (rs, sd') w' →
  register_attempts (trace w') = register_attempts (trace w) + length (registered_ids ops).
Proof. apply run_register_attempts. Qed.

Lemma one_engine_call_per_Register_witness :
  register_attempts (trace world_repeated) = register_attempts (trace started_world) + 3.
Proof.
  apply (one_engine_call_per_Register quiet_engine repeated_id fresh_sd sd_repeated
           [RUnit; RUnit; RUnit] started_world world_repeated).
  vm_compute. reflexivity.
Defined.


(** X7: [log.Fatalf] is the last thing a process does: a history that
    returns has recorded no fatal message, and one that ends the process
    has recorded exactly one, as its last event. *)
Theorem fatal_is_final (eng : Engine) (sd : ServiceDiscovery) (ops : list Op) (w : World) :
  no_fatal (trace w) →
  match run eng sd ops w with
  | Returned _ w' => no_fatal (trace w')
  | Exited w' => ∃ tr msg, trace w' = tr ++ [EvFatal msg] ∧ no_fatal tr
  end.
Proof.
  intros Hnf. destruct (run eng sd ops w) as [[rs sd'] w'|w'] eqn:Hrun.
  - apply (run_invariant eng (fun _ v => no_fatal (trace v))
             (fun sd1 op w1 r sd2 w2 => exec_no_fatal eng sd1 sd2 op r w1 w2)
             ops sd w rs sd' w' Hrun Hnf).
  - apply run_exited in Hrun as (ops1 & op & ops2 & rs & sd1 & w1 & _ & Hrun1 & Hop).
    apply exec_exited in Hop as (T & ST & s & _ & Hreg).
    apply Register_exited in Hreg as (c & err & Htr & _).
    exists (trace w1 ++ [EvRegisterFailed c err]), ("Failed to register service: " ++ err)%string.
    split; [by rewrite Htr, <- app_assoc|].
    apply Forall_app. split; [|by repeat constructor].
    apply (run_invariant eng (fun _ v => no_fatal (trace v))
             (fun sd2 op' w2 r sd3 w3 => exec_no_fatal eng sd2 sd3 op' r w2 w3)
             ops1 sd w rs sd1 w1 Hrun1 Hnf).
Qed.

Lemma fatal_is_final_witness :
  (∃ tr msg, trace (world_of (run refusing_engine fresh_sd two_services started_world))
               = tr ++ [EvFatal msg] ∧ no_fatal tr) ∧
  no_fatal (trace world_two).
Proof.
  assert (Hnf : no_fatal (trace started_world)) by (by repeat constructor).
  split.
  - exact (fatal_is_final refusing_engine fresh_sd two_services started_world Hnf).
  - exact (fatal_is_final quiet_engine fresh_sd two_services started_world Hnf).
Defined.

(** ** Stored TXT records *)

Lemma contains_eq_txt_pair (kv : string * string) : contains_eq (txt_pair kv) = true.
Proof.
  destruct kv as [k v]. unfold txt_pair. simpl.
  induction k as [|c k IH]; simpl; [done|].
  by destruct (Ascii.eqb c eq_sign).
Qed.

Lemma encode_config_well_formed (seed : nat) (cfg : ConfigValue) :
  Forall (fun t => contains_eq t = true) (encode_config seed cfg).
Proof.
  unfold encode_config. destruct (assert_string_map cfg) as [m|]; [|done].
  rewrite encode_loop_fmap. simpl. apply Forall_fmap, Forall_forall.
  intros kv _. apply contains_eq_txt_pair.
Qed.

Lemma exec_records_well_formed (eng : Engine) (sd sd' : ServiceDiscovery) (op : Op)
    (r : Reply) (w w' : World) :
  exec eng sd op w = Returned (r, sd') w' →
  records_well_formed sd → records_well_formed sd'.
Proof.
  intros Hop Hwf. apply exec_returned in Hop. destruct op as [T ST s| |id'].
  - destruct Hop as [Hreg _].
    apply Register_returned in Hreg as (_ & _ & Hsv & _).
    intros id e. rewrite Hsv. destruct (decide (ID s = id)) as [->|Hne].
    + rewrite lookup_insert_eq. intros [= <-]. apply encode_config_well_formed.
    + rewrite lookup_insert_ne by done. apply Hwf.
  - by destruct Hop as (-> & _).
  - by destruct Hop as (-> & _).
Qed.

(** X8: every TXT record the package ever stores has an ["="] in it: after
    any session, each record of each entry of the registry does, whatever
    the configurations of the registered services were. *)
Theorem stored_records_have_eq_sign (eng : Engine) (st : string) (ops : list Op)
    (sd : ServiceDiscovery) (rs : list Reply) (w w' : World) :
  session eng st ops w = Returned (rs, sd) w' →
  records_well_formed sd.
Proof.
  unfold session, bind.
  destruct (NewServiceDiscovery eng st w) as [sd0 w0|w0] eqn:Hnew; [|done].
  apply NewServiceDiscovery_returned in Hnew as (_ & Hempty & _).
  intros Hrun.
  apply (run_invariant eng (fun v _ => records_well_formed v)
           (fun sd1 op w1 r sd2 w2 Hop => exec_records_well_formed eng sd1 sd2 op r w1 w2 Hop)
           ops sd0 w0 rs sd w' Hrun).
  intros id e. by rewrite Hempty, lookup_empty.
Qed.

Lemma stored_records_have_eq_sign_witness : records_well_formed sd_two.
Proof.
  apply (stored_records_have_eq_sign quiet_engine "_myService._tcp" two_services sd_two
           [RUnit; REntry (Some svc1_entry); RUnit] initial_world world_two).
  vm_compute. reflexivity.
Defined.

(** ** Where the encoding can and cannot be read back *)

Lemma permute_singleton {A} (seed : nat) (x : A) : permute seed [x] = [x].
Proof. cbn [permute length]. by rewrite Nat.mod_1_r. Qed.

Lemma encode_config_singleton (seed : nat) (k v : string) :
  encode_config seed (CfgStringMap {[ k := v ]}) = [txt_pair (k, v)].
Proof.
  unfold encode_config, range_map. simpl.
  by rewrite map_to_list_singleton, permute_singleton.
Qed.

Lemma txt_pair_shift (a b c : string) :
  txt_pair ((a ++ "=" ++ b)%string, c) = txt_pair (a, (b ++ "=" ++ c)%string).
Proof.
  unfold txt_pair. cbn [fst snd].
  induction a as [|x a IH]; [done|].
  change (String x ((a ++ "=" ++ b) ++ "=" ++ c) = String x (a ++ "=" ++ b ++ "=" ++ c))%string.
  by rewrite IH.
Qed.

(** X9: the TXT records of a [map[string]string] configuration can be read
    back whenever no key contains ["="]; values may contain it.  Splitting
    every record at its first ["="] then rebuilds the configuration,
    whatever order the records were written in. *)
Theorem roundtrip_needs_clean_keys_only (seed : nat) (m : gmap string string) :
  (∀ k v, m !! k = Some v → contains_eq k = false) →
  decode_txt (encode_config seed (CfgStringMap m)) = Some m.
Proof.
  intros Hclean. unfold encode_config, decode_txt. simpl.
  rewrite encode_loop_fmap. simpl.
  rewrite mapM_split_txt_pairs.
  - simpl. f_equal. apply range_map_to_map.
  - apply Forall_forall. intros [k v] Hin.
    rewrite range_map_Permutation in Hin. apply elem_of_map_to_list in Hin.
    by apply (Hclean k v).
Qed.

Lemma roundtrip_needs_clean_keys_only_witness :
  decode_txt (encode_config 0 (CfgStringMap {[ "query" := "a=b" ]}))
  = Some {[ "query" := "a=b" ]}.
Proof.
  apply (roundtrip_needs_clean_keys_only 0 {[ "query" := "a=b" ]}).
  intros k v Hkv. apply lookup_singleton_Some in Hkv as [<- _]. reflexivity.
Defined.

(** X10: a key with ["="] in it is written without escaping, so it cannot
    be told from a value with ["="] in it: the configurations
    [{a=b: c}] and [{a: b=c}] give the same TXT records, and reading the
    records of the first back gives the second. *)
Theorem eq_sign_in_key_is_ambiguous (a b c : string) (seed1 seed2 : nat) :
  encode_config seed1 (CfgStringMap {[ (a ++ "=" ++ b)%string := c ]})
    = encode_config seed2 (CfgStringMap {[ a := (b ++ "=" ++ c)%string ]}) ∧
  (contains_eq a = false →
   decode_txt (encode_config seed1 (CfgStringMap {[ (a ++ "=" ++ b)%string := c ]}))
     = Some {[ a := (b ++ "=" ++ c)%string ]}).
Proof.
  rewrite !encode_config_singleton, txt_pair_shift. split; [done|].
  intros Ha. unfold decode_txt. cbn [mapM].
  rewrite split_first_eq_txt_pair by done. simpl.
  by rewrite insert_empty.
Qed.

Lemma eq_sign_in_key_is_ambiguous_witness :
  encode_config 0 (CfgStringMap {[ "a=b" := "c" ]})
    = encode_config 0 (CfgStringMap {[ "a" := "b=c" ]}) ∧
  decode_txt (encode_config 0 (CfgStringMap {[ "a=b" := "c" ]})) = Some {[ "a" := "b=c" ]}.
Proof.
  destruct (eq_sign_in_key_is_ambiguous "a" "b" "c" 0 0) as [Henc Hdec].
  split; [exact Henc|]. exact (Hdec eq_refl).
Defined.

(** ** Histories that cannot fail *)

(** X11: [GetServices] and [GetServiceById] never end the process, never
    call the engine and never write the registry: a history made of them
    alone returns one reply per call and leaves the registry, the trace and
    the running announcements as they were. *)
Theorem queries_change_nothing (eng : Engine) (ops : list Op) (sd : ServiceDiscovery)
    (w : World) :
  registered_ids ops = [] →
  ∃ rs w', run eng sd ops w = Returned (rs, sd) w' ∧
           length rs = length ops ∧
           trace w' = trace w ∧ live w' = live w.
Proof.
  revert w. induction ops as [|op ops IH]; intros w Hq.
  - by exists [], w.
  - rewrite registered_ids_cons in Hq.
    destruct op as [T ST s| |id]; simpl in Hq; [done| |].
    + destruct (IH (after_range w) Hq) as (rs & w' & Hrun & Hlen & Htr & Hlive).
      eexists (_ :: rs), w'. split; [|split; [simpl; by rewrite Hlen|done]].
      simpl. unfold bind at 1. unfold exec, bind. rewrite GetServices_eq.
      unfold ret at 1. simpl. unfold bind. by rewrite Hrun.
    + destruct (IH w Hq) as (rs & w' & Hrun & Hlen & Htr & Hlive).
      eexists (_ :: rs), w'. split; [|split; [simpl; by rewrite Hlen|done]].
      simpl. unfold bind at 1. unfold exec, bind, GetServiceById.
      unfold ret at 1 2. simpl. unfold bind. by rewrite Hrun.
Qed.

Lemma queries_change_nothing_witness :
  ∃ rs w', run quiet_engine sd_two [OpGetServiceById "svc9"; OpGetServices;
                                    OpGetServiceById "svc2"] world_two
             = Returned (rs, sd_two) w' ∧
           length rs = 3 ∧
           trace w' = trace world_two ∧ live w' = live world_two.
Proof.
  exact (queries_change_nothing quiet_engine
           [OpGetServiceById "svc9"; OpGetServices; OpGetServiceById "svc2"]
           sd_two world_two eq_refl).
Defined.



(** ** A [ServiceDiscovery] with a nil map *)

Section Values.
Context (eng : Engine).

(** On the values [NewServiceDiscovery] builds, the methods over
    [ServiceDiscoveryValue] are the methods over [ServiceDiscovery]. *)
Lemma Register_value_of_made {T} `{Service T} (sd : ServiceDiscovery) (s : T) (w : World) :
  Register_value eng (of_made sd) s w = outcome3 of_made (Register eng sd s w).
Proof.
  unfold Register_value, with_defers3, Register_value_body, bind3, lift3.
  unfold Register, with_defers, Register_body, bind.
  destruct (config_txt eng (Config s) w) as [txt w1|w1]; [|done].
  destruct (zeroconf.Register eng _ _ _ _ _ w1) as [[server|err] w2|w2]; [| |done].
  - done.
  - done.
Qed.

Lemma GetServices_value_of_made (sd : ServiceDiscovery) (w : World) :
  GetServices_value eng (of_made sd) w = outcome3 (fun ids => ids) (GetServices eng sd w).
Proof. done. Qed.

Lemma GetServiceById_value_of_made (sd : ServiceDiscovery) (id : string) (w : World) :
  GetServiceById_value (of_made sd) id w = outcome3 (fun e => e) (GetServiceById sd id w).
Proof. done. Qed.

End Values.

(** X13: on a [ServiceDiscovery] whose map is nil (the zero value),
    [Register] still calls the engine first.  If the engine refuses, the
    process exits as usual; if it accepts, the assignment to the nil map
    panics, nothing is stored, and the server just started is not shut
    down, because the panic comes before the [defer] statement. *)
Theorem Register_on_nil_map (eng : Engine) {T} `{Service T}
    (sd : ServiceDiscoveryValue) (s : T) (w : World) :
  v_services sd = NilMap →
  let txtRecords := encode_config (range_seed eng (ranges w)) (Config s) in
  let w1 := after_config (Config s) w in
  let c := register_call s txtRecords in
  match register_error eng (trace w1) c with
  | Some err =>
      ∃ w', Register_value eng sd s w = Exited3 w' ∧
            trace w' = trace w ++ [EvRegisterFailed c err;
                                   EvFatal ("Failed to register service: " ++ err)%string] ∧
            live w' = live w
  | None =>
      ∃ h w', Register_value eng sd s w = Panicked3 "assignment to entry in nil map" w' ∧
              trace w' = trace w ++ [EvRegister c h] ∧
              live w' = {[h]} ∪ live w
  end.
Proof.
  intros Hnil txtRecords w1 c. subst txtRecords w1 c.
  unfold Register_value, with_defers3, Register_value_body, bind3, lift3.
  rewrite config_txt_eq. unfold zeroconf.Register. cbn zeta.
  fold (register_call s (encode_config (range_seed eng (ranges w)) (Config s))).
  destruct (trace_after_config (Config s) w) as [Et El].
  destruct (register_error eng _ _) as [err|]; simpl.
  - eexists. split; [done|]. simpl. by rewrite Et, El, <- app_assoc.
  - rewrite Hnil. simpl. eexists _, _. split; [done|]. simpl. by rewrite Et, El.
Qed.

Lemma Register_on_nil_map_witness :
  (∃ h w', Register_value quiet_engine zero_ServiceDiscovery svc2 initial_world
             = Panicked3 "assignment to entry in nil map" w' ∧
           trace w' = [EvRegister svc2_call h] ∧
           live w' = {[h]} ∪ ∅) ∧
  (∃ w', Register_value refusing_engine zero_ServiceDiscovery svc2 initial_world
           = Exited3 w' ∧
         trace w' = [EvRegisterFailed svc2_call "no interface";
                     EvFatal "Failed to register service: no interface"] ∧
         live w' = ∅).
Proof.
  split.
  - exact (Register_on_nil_map quiet_engine zero_ServiceDiscovery svc2 initial_world
             eq_refl).
  - exact (Register_on_nil_map refusing_engine zero_ServiceDiscovery svc2 initial_world
             eq_refl).
Defined.

(** X14: on a [ServiceDiscovery] whose map is nil, the two lookups answer
    as on an empty registry and do not panic: [GetServices] returns the
    empty list and [GetServiceById] returns nil for every ID. *)
Theorem lookups_on_nil_map (eng : Engine) (sd : ServiceDiscoveryValue) (w : World) :
  v_services sd = NilMap →
  GetServices_value eng sd w = Returned3 [] (after_range w) ∧
  ∀ id, GetServiceById_value sd id w = Returned3 None w.
Proof.
  intros Hnil. unfold GetServices_value, GetServiceById_value, bind3, lift3, go_range, ret3.
  rewrite Hnil. simpl. unfold range_map. rewrite map_to_list_empty. simpl.
  split; [done|]. intros id. by rewrite lookup_empty.
Qed.

Lemma lookups_on_nil_map_witness :
  GetServices_value quiet_engine zero_ServiceDiscovery initial_world
    = Returned3 [] (after_range initial_world) ∧
  ∀ id, GetServiceById_value zero_ServiceDiscovery id initial_world
        = Returned3 None initial_world.
Proof.
  exact (lookups_on_nil_map quiet_engine zero_ServiceDiscovery initial_world eq_refl).
Defined.
